(* Verification development for the Tool-Use-Agent repository.

   Part I embeds the frontend code: the API service
   (services/api.ts: AgentService.queryAgent, deleteConversation,
   checkHealth) and the Chat component's handlers (handleSubmit,
   startNewConversation), its health poll (checkApiHealth) and the
   enabling of its form and buttons.  JavaScript values that come out of
   `response.json()` are modelled as JSON trees plus `undefined`;
   promises that settle as `Settled` (resolved value or thrown error).

   Part II models, from the specification, the backend orchestration
   core that the frontend talks to (conversation store, tool dispatcher,
   result cache, orchestration loop), whose backend code is not part of
   the modelled sources. *)

From stdpp Require Import base gmap strings list pretty stringmap.
From Stdlib Require Import ZArith String Ascii.

Set Warnings "-register-all".
Open Scope string_scope.

(* ===================================================================== *)
(* Part I.1  JavaScript values                                            *)
(* ===================================================================== *)

Module JS.

(** Values produced by `JSON.parse`; numbers are kept as integers. *)
Inductive json : Type :=
| JNull
| JBool (b : bool)
| JNum (z : Z)
| JStr (s : string)
| JArr (l : list json)
| JObj (fields : list (string * json)).

(** A JavaScript value as the frontend handles it: `undefined` or a
    value that came from JSON. *)
Inductive jsval : Type :=
| Undefined
| Val (j : json).

(** Truthiness (`!v`, `a && b`, `a || b`). *)
Definition truthy (v : jsval) : bool :=
  match v with
  | Undefined => false
  | Val JNull => false
  | Val (JBool b) => b
  | Val (JNum z) => negb (Z.eqb z 0)
  | Val (JStr s) => negb (String.eqb s "")
  | Val (JArr _) => true
  | Val (JObj _) => true
  end.

(** `a || b` *)
Definition js_or (a b : jsval) : jsval := if truthy a then a else b.

(** Own property of a parsed object: `JSON.parse` keeps the last of
    duplicated keys. *)
Definition field_lookup (k : string) (fs : list (string * json)) : jsval :=
  match List.find (fun kv => String.eqb k (fst kv)) (List.rev fs) with
  | Some (_, v) => Val v
  | None => Undefined
  end.

(** Property read `v.k`: a TypeError (None) on null and undefined.  The
    keys read by the frontend (conversation_id, response, tool_calls,
    detail, api_key_configured) are not properties of the built-in
    prototypes, so on any other non-object they read as undefined. *)
Definition get_prop (v : jsval) (k : string) : option jsval :=
  match v with
  | Undefined => None
  | Val JNull => None
  | Val (JObj fs) => Some (field_lookup k fs)
  | Val _ => Some Undefined
  end.

(** `JSON.stringify` of an object literal: properties whose value is
    undefined are left out. *)
Definition stringify_obj (fs : list (string * jsval)) : json :=
  JObj (omap (fun kv => match kv.2 with
                        | Undefined => None
                        | Val j => Some (kv.1, j)
                        end) fs).

(** Whitespace and line terminators removed by `String.prototype.trim`,
    restricted to 8-bit code units: TAB, LF, VT, FF, CR, SPACE, NBSP. *)
Definition is_ws (c : ascii) : bool :=
  let n := nat_of_ascii c in
  (Nat.leb 9 n && Nat.leb n 13) || Nat.eqb n 32 || Nat.eqb n 160.

Fixpoint drop_ws (l : list ascii) : list ascii :=
  match l with
  | [] => []
  | c :: r => if is_ws c then drop_ws r else l
  end.

(** `s.trim()` *)
Definition js_trim (s : string) : string :=
  string_of_list_ascii
    (List.rev (drop_ws (List.rev (drop_ws (list_ascii_of_string s))))).

(** Thrown values. *)
Inductive throwable : Type :=
| ENetwork                 (* fetch rejected: network failure *)
| ESyntax                  (* response.json() on a body that is not JSON *)
| ETypeError               (* property read on null / undefined *)
| EMessage (m : jsval).    (* new Error(m) *)

(** A settled promise. *)
Inductive Settled (A : Type) : Type :=
| Resolved (a : A)
| Rejected (e : throwable).
Arguments Resolved {A} a.
Arguments Rejected {A} e.

(** try { m } catch (e) { h e } *)
Definition try_catch {A} (m : Settled A) (h : throwable -> Settled A) : Settled A :=
  match m with
  | Resolved a => Resolved a
  | Rejected e => h e
  end.

End JS.
Import JS.

(* ===================================================================== *)
(* Part I.2  services/api.ts: AgentService                                *)
(* ===================================================================== *)

Module Api.

(** A request handed to `fetch`. *)
Record Request : Type := mkRequest {
  req_method : string;
  req_url : string;
  req_body : option json      (* the JSON.stringify'd body, if any *)
}.

(** How a `fetch` call ends: the promise rejects (network failure), or
    a response arrives; its body is `None` when `response.json()` would
    reject because the body is not JSON. *)
Inductive FetchOutcome : Type :=
| NetworkError
| HttpResponse (ok : bool) (body : option json).

(** `response.json()` *)
Definition response_json (body : option json) : Settled json :=
  match body with
  | Some j => Resolved j
  | None => Rejected ESyntax
  end.

(** The error path shared by queryAgent and deleteConversation:
      const errorData = await response.json();
      throw new Error(errorData.detail || default_msg); *)
Definition throw_error_detail {A} (body : option json) (default_msg : string)
  : Settled A :=
  match response_json body with
  | Rejected e => Rejected e
  | Resolved errorData =>
      match get_prop (Val errorData) "detail" with
      | None => Rejected ETypeError
      | Some d => Rejected (EMessage (js_or d (Val (JStr default_msg))))
      end
  end.

(** String conversion used by template literals. *)
Fixpoint json_to_string (j : json) : string :=
  match j with
  | JNull => "null"
  | JBool true => "true"
  | JBool false => "false"
  | JNum z => pretty z
  | JStr s => s
  | JArr l =>
      (fix join (l : list json) : string :=
         match l with
         | [] => ""
         | [x] => match x with JNull => "" | _ => json_to_string x end
         | x :: r => (match x with JNull => "" | _ => json_to_string x end)
                       ++ "," ++ join r
         end) l
  | JObj _ => "[object Object]"
  end.

Definition to_js_string (v : jsval) : string :=
  match v with
  | Undefined => "undefined"
  | Val j => json_to_string j
  end.

Section Service.

(** `process.env.NEXT_PUBLIC_API_URL || 'http://localhost:8000'` *)
Variable API_BASE_URL : string.

(** queryAgent(query, conversationId?): the request it sends, and what
    the returned promise settles to once fetch ends with a given outcome.
    The catch block logs and rethrows, so it is the identity here. *)
Definition queryAgent_request (query : string) (conversationId : jsval) : Request :=
  {| req_method := "POST";
     req_url := API_BASE_URL ++ "/api/agent";
     req_body := Some (stringify_obj [("query", Val (JStr query));
                                      ("conversation_id", conversationId)]) |}.

Definition queryAgent_result (o : FetchOutcome) : Settled json :=
  match o with
  | NetworkError => Rejected ENetwork
  | HttpResponse false body =>
      throw_error_detail body "An error occurred while querying the agent."
  | HttpResponse true body => response_json body
  end.

(** deleteConversation(conversationId) *)
Definition deleteConversation_request (conversationId : jsval) : Request :=
  {| req_method := "DELETE";
     req_url := API_BASE_URL ++ "/api/conversations/" ++ to_js_string conversationId;
     req_body := None |}.

Definition deleteConversation_result (o : FetchOutcome) : Settled unit :=
  match o with
  | NetworkError => Rejected ENetwork
  | HttpResponse false body =>
      throw_error_detail body "An error occurred while deleting the conversation."
  | HttpResponse true _ => Resolved tt
  end.

(** The object returned by checkHealth; `apiKeyConfigured = None` means
    the property is absent, `Some Undefined` that it is present with
    value undefined. *)
Record Health : Type := mkHealth {
  isHealthy : bool;
  apiKeyConfigured : option jsval
}.

Definition checkHealth_request : Request :=
  {| req_method := "GET"; req_url := API_BASE_URL ++ "/health"; req_body := None |}.

Definition checkHealth_result (o : FetchOutcome) : Settled Health :=
  try_catch
    (match o with
     | NetworkError => Rejected ENetwork
     | HttpResponse true body =>
         match response_json body with
         | Rejected e => Rejected e
         | Resolved data =>
             match get_prop (Val data) "api_key_configured" with
             | None => Rejected ETypeError
             | Some v => Resolved {| isHealthy := true; apiKeyConfigured := Some v |}
             end
         end
     | HttpResponse false _ => Resolved {| isHealthy := false; apiKeyConfigured := None |}
     end)
    (fun _ => Resolved {| isHealthy := false; apiKeyConfigured := None |}).

End Service.

End Api.
Import Api.

(* ===================================================================== *)
(* Part I.3  components/Chat.tsx: handleSubmit, startNewConversation      *)
(* ===================================================================== *)

Module Chat.

Inductive Role : Type := User | Assistant.

(** interface ChatMessage { role; content; toolCalls? }.  Assistant
    messages take `content` and `toolCalls` straight from the parsed
    response, so they are JavaScript values. *)
Record ChatMessage : Type := mkMsg {
  role : Role;
  content : jsval;
  toolCalls : jsval
}.

(** The component state (useState hooks) the handlers touch.  The
    conversation id is declared `string | null`; at run time it holds
    whatever `response.conversation_id` was, so it is a JS value; its
    initial value is null. *)
Record ChatState : Type := mkState {
  messages : list ChatMessage;
  input : string;
  isLoading : bool;
  conversationId : jsval
}.

Definition initial_state : ChatState :=
  {| messages := []; input := ""; isLoading := false; conversationId := Val JNull |}.

Definition set_messages (f : list ChatMessage -> list ChatMessage) (st : ChatState) : ChatState :=
  {| messages := f (messages st); input := input st;
     isLoading := isLoading st; conversationId := conversationId st |}.
Definition set_input (s : string) (st : ChatState) : ChatState :=
  {| messages := messages st; input := s;
     isLoading := isLoading st; conversationId := conversationId st |}.
Definition set_isLoading (b : bool) (st : ChatState) : ChatState :=
  {| messages := messages st; input := input st;
     isLoading := b; conversationId := conversationId st |}.
Definition set_conversationId (c : jsval) (st : ChatState) : ChatState :=
  {| messages := messages st; input := input st;
     isLoading := isLoading st; conversationId := c |}.

Definition error_text : string :=
  "Sorry, I encountered an error while processing your request. Please try again.".

Definition error_message : ChatMessage :=
  {| role := Assistant; content := Val (JStr error_text); toolCalls := Undefined |}.

(** What handleSubmit hands to the agent service before its await: the
    query, the `conversationId || undefined` argument, and the
    conversation id of the render the handler closes over. *)
Record PendingTurn : Type := mkPending {
  pend_query : string;
  pend_arg : jsval;
  pend_captured : jsval
}.

(** handleSubmit, up to `await AgentService.queryAgent(...)`. *)
Definition handleSubmit_start (st : ChatState) : ChatState * option PendingTurn :=
  if negb (truthy (Val (JStr (js_trim (input st))))) then (st, None)
  else
    let userMessage := {| role := User; content := Val (JStr (input st));
                          toolCalls := Undefined |} in
    let currentInput := input st in
    let st1 := set_messages (fun prev => app prev [userMessage]) st in
    let st2 := set_input "" st1 in
    let st3 := set_isLoading true st2 in
    (st3, Some {| pend_query := currentInput;
                  pend_arg := js_or (conversationId st) Undefined;
                  pend_captured := conversationId st |}).

(** handleSubmit, after the await: `r` is what queryAgent settled to,
    `st` the state at that moment (setMessages uses functional updates,
    the `!conversationId` test reads the captured render value). *)
Definition handleSubmit_finish (p : PendingTurn) (r : Settled json) (st : ChatState)
  : ChatState :=
  let on_error := fun st0 => set_messages (fun prev => app prev [error_message]) st0 in
  let st' :=
    match r with
    | Rejected _ => on_error st
    | Resolved response =>
        match get_prop (Val response) "conversation_id" with
        | None => on_error st
        | Some cid =>
            let st1 := if truthy cid && negb (truthy (pend_captured p))
                       then set_conversationId cid st else st in
            match get_prop (Val response) "response",
                  get_prop (Val response) "tool_calls" with
            | Some txt, Some tcs =>
                set_messages (fun prev => app prev
                  [{| role := Assistant; content := txt; toolCalls := tcs |}]) st1
            | _, _ => on_error st1
            end
        end
    end in
  set_isLoading false st'.

Section Handlers.
Variable API_BASE_URL : string.

(** A whole submission whose fetch ends with outcome `o` before any
    other event: the request sent (if any) and the final state. *)
Definition handleSubmit (st : ChatState) (o : FetchOutcome)
  : option Request * ChatState :=
  match handleSubmit_start st with
  | (st1, None) => (None, st1)
  | (st1, Some p) =>
      (Some (queryAgent_request API_BASE_URL (pend_query p) (pend_arg p)),
       handleSubmit_finish p (queryAgent_result o) st1)
  end.

(** startNewConversation: the delete request (sent only when an id is
    held), how the handler's own promise settles, and the final state. *)
Definition startNewConversation (st : ChatState) (o : FetchOutcome)
  : option Request * Settled unit * ChatState :=
  let reset := fun st0 => set_messages (fun _ => []) (set_conversationId (Val JNull) st0) in
  if truthy (conversationId st) then
    let r := try_catch (deleteConversation_result o) (fun _ => Resolved tt) in
    match r with
    | Resolved _ =>
        (Some (deleteConversation_request API_BASE_URL (conversationId st)),
         Resolved tt, reset st)
    | Rejected e =>
        (Some (deleteConversation_request API_BASE_URL (conversationId st)),
         Rejected e, st)
    end
  else (None, Resolved tt, reset st).

End Handlers.

End Chat.
Import Chat.

(* ===================================================================== *)
(* Part I.4  components/Chat.tsx: status polling and form guards         *)
(* ===================================================================== *)

Module ChatView.

Inductive ApiStatus : Type := Connecting | Connected | StatusError | Warning.

Definition cannot_connect_text : string := "Cannot connect to backend API".
Definition no_key_text : string := "API key not configured. Agent functionality limited.".

(** checkApiHealth (useEffect): the (apiStatus, statusMessage) it sets
    once `AgentService.checkHealth()` has settled to `r`. *)
Definition checkApiHealth (r : Settled Health) : ApiStatus * option string :=
  match r with
  | Rejected _ => (StatusError, Some cannot_connect_text)
  | Resolved healthCheck =>
      if negb (isHealthy healthCheck) then (StatusError, Some cannot_connect_text)
      else if negb (match apiKeyConfigured healthCheck with
                    | Some v => truthy v
                    | None => false      (* absent property reads as undefined *)
                    end)
      then (Warning, Some no_key_text)
      else (Connected, None)
  end.

Definition is_error_status (s : ApiStatus) : bool :=
  match s with StatusError => true | _ => false end.

(** `disabled={isLoading || apiStatus === 'error'}` on the input and the
    Send button. *)
Definition form_disabled (isLoading : bool) (apiStatus : ApiStatus) : bool :=
  isLoading || is_error_status apiStatus.

(** `disabled={messages.length === 0}` on the New Conversation button. *)
Definition newConversation_disabled (st : ChatState) : bool :=
  Nat.eqb (List.length (messages st)) 0.

End ChatView.
Import ChatView.

(* ===================================================================== *)
(* Part II  Orchestration core behind /api/agent                          *)
(* ===================================================================== *)

Module Server.

(** Modelled from the spec: the backend's data model (section 3), whose
    code is missing from the modelled sources. *)
Inductive MsgRole : Type := RUser | RAssistant | RTool.

Record ToolCall : Type := mkCall {
  tool_name : string;
  tool_input : json            (* mapping from parameter name to value *)
}.

Inductive ToolErr : Type :=
| ToolNotFound | InvalidToolInput | ToolExecutionFailed | ToolTimeout.

Inductive ToolResult : Type :=
| TROk (v : json)
| TRFail (kind : ToolErr) (msg : string).

Record Message : Type := mkMessage {
  m_role : MsgRole;
  m_content : string;
  m_calls : list (ToolCall * ToolResult)
}.

Record Conversation : Type := mkConv {
  conv_messages : list Message;
  created_at : Z;
  last_activity : Z
}.

Inductive ServerError : Type := NotFound.

(** Modelled from the spec: the Model Gateway's decision (section 4.2). *)
Inductive Decision : Type :=
| FinalAnswer (text : string)
| ToolRequest (calls : list ToolCall).

Inductive GwOutcome : Type :=
| GwOk (d : Decision)
| ModelUnavailable
| ModelMalformedOutput.

(** Modelled from the spec: a Tool Registry entry (section 4.3). *)
Record ToolSpec : Type := mkTool {
  validate : json -> bool;
  executor : json -> ToolResult;   (* a timed-out run yields TRFail ToolTimeout *)
  cacheable : bool
}.

(** Modelled from the spec: the backend's Conversation Store (section 4.1). *)
Definition create (now : Z) (store : gmap string Conversation)
  : string * gmap string Conversation :=
  let id := fresh_string "conv" store in
  (id, <[id := {| conv_messages := []; created_at := now; last_activity := now |}]> store).

Definition append (id : string) (m : Message) (now : Z) (store : gmap string Conversation)
  : ServerError + gmap string Conversation :=
  match store !! id with
  | None => inl NotFound
  | Some c => inr (<[id := {| conv_messages := app (conv_messages c) [m];
                              created_at := created_at c;
                              last_activity := now |}]> store)
  end.

Definition history (id : string) (store : gmap string Conversation)
  : ServerError + list Message :=
  match store !! id with
  | None => inl NotFound
  | Some c => inr (conv_messages c)
  end.

Definition delete_conv (id : string) (store : gmap string Conversation)
  : gmap string Conversation := delete id store.

Section Dispatcher.

(** Modelled from the spec: the backend's Tool Registry (section 4.3). *)
Variable registry : string -> option ToolSpec.

(** One call, validated against the registry before any execution. *)
Definition run_call (c : ToolCall) : ToolResult :=
  match registry (tool_name c) with
  | None => TRFail ToolNotFound "unknown tool"
  | Some t => if validate t (tool_input c) then executor t (tool_input c)
              else TRFail InvalidToolInput "invalid tool input"
  end.

(** Modelled from the spec: the backend's Tool Dispatcher (section 4.4).  The
    calls run concurrently; `sched` lists, in completion order, the
    positions of the calls that complete before the dispatch deadline.
    Each completion stores its result in the slot of its call; a slot
    still empty at the deadline becomes a timeout failure. *)
Definition complete (calls : list ToolCall) (slots : list (option ToolResult)) (i : nat)
  : list (option ToolResult) :=
  match calls !! i with
  | Some c => <[i := Some (run_call c)]> slots
  | None => slots
  end.

Definition execute (calls : list ToolCall) (sched : list nat) : list ToolResult :=
  map (fun o => match o with
                | Some r => r
                | None => TRFail ToolTimeout "dispatch deadline exceeded"
                end)
      (fold_left (complete calls) sched (replicate (List.length calls) None)).

End Dispatcher.

End Server.
Import Server.

Module ResultCache.

(** Modelled from the spec: the backend's Result Cache (sections 3, 4.3, 4.4) and
    the dispatcher's use of it for a cacheable tool.  `canon` is the
    key canonicalisation (a policy, so a parameter), `ttl` the time to
    live, and `exec now input` the tool's executor run at time `now`. *)
Record CacheEntry : Type := mkEntry {
  ce_value : json;
  ce_expiry : Z
}.

(** Entries are keyed by tool name and canonicalised input. *)
Record CacheState : Type := mkCacheState {
  entries : gmap (string * string) CacheEntry;
  exec_count : nat          (* how many times the executor has run *)
}.

(** get(key): a read at or after the expiry timestamp is a miss. *)
Definition cache_get (now : Z) (k : string * string) (c : gmap (string * string) CacheEntry)
  : option json :=
  match c !! k with
  | Some e => if Z.ltb now (ce_expiry e) then Some (ce_value e) else None
  | None => None
  end.

(** put(key, value, ttl): last writer wins. *)
Definition cache_put (now : Z) (k : string * string) (v : json) (ttl : Z)
  (c : gmap (string * string) CacheEntry) : gmap (string * string) CacheEntry :=
  <[k := {| ce_value := v; ce_expiry := now + ttl |}]> c.

Section Invoke.
Variable canon : json -> string.
Variable ttl : Z.
Variable exec : Z -> json -> ToolResult.

(** A call of the cacheable tool `name` at time `now`: consult the cache;
    on a miss run the executor, and on success populate the cache. *)
Definition cached_invoke (name : string) (input : json) (now : Z) (st : CacheState)
  : ToolResult * CacheState :=
  let k := (name, canon input) in
  match cache_get now k (entries st) with
  | Some v => (TROk v, st)
  | None =>
      let r := exec now input in
      let c' := match r with
                | TROk v => cache_put now k v ttl (entries st)
                | TRFail _ _ => entries st
                end in
      (r, {| entries := c'; exec_count := S (exec_count st) |})
  end.

End Invoke.

End ResultCache.

Module Orchestration.

(** Modelled from the spec: the bounds of the backend's orchestration loop
    (section 4.5). *)
Definition MAX_ROUNDS : nat := 4.
Definition MAX_ATTEMPTS : nat := 3.     (* gateway attempts per decision *)

Definition round_limit_text : string :=
  "Sorry, I could not finish this request within the allowed number of tool rounds.".
Definition model_error_text : string :=
  "Sorry, the language model is unavailable right now. Please try again.".

Inductive Outcome : Type :=
| Answered (text : string)
| RoundLimitExceeded
| ModelFailed.

Definition outcome_text (o : Outcome) : string :=
  match o with
  | Answered t => t
  | RoundLimitExceeded => round_limit_text
  | ModelFailed => model_error_text
  end.

Inductive Phase : Type :=
| AwaitingDecision
| Dispatching (calls : list ToolCall)
| Done (o : Outcome).

Record LoopState : Type := mkLoop {
  phase : Phase;
  hist : list Message;
  round : nat;                 (* completed AwaitingDecision -> Dispatching cycles *)
  attempt : nat;               (* failed gateway attempts for the current decision *)
  gw_calls : nat;              (* gateway calls made in this turn *)
  trace : list (ToolCall * ToolResult)
}.

Section Loop.
Variable registry : string -> option ToolSpec.
(** The Model Gateway, a black box: its answer may depend on the call
    number as well as on the history. *)
Variable gateway : nat -> list Message -> GwOutcome.
(** Completion order of the dispatched calls of each round. *)
Variable schedule : nat -> list ToolCall -> list nat.

Definition valid (c : ToolCall) : bool :=
  match registry (tool_name c) with
  | Some t => validate t (tool_input c)
  | None => false
  end.

(** Step 4: invalid calls get a synthesized failure, valid ones take
    the dispatcher's results in order. *)
Fixpoint merge (cs : list ToolCall) (rs : list ToolResult) : list ToolResult :=
  match cs with
  | [] => []
  | c :: cs' =>
      if valid c then
        match rs with
        | r :: rs' => r :: merge cs' rs'
        | [] => TRFail ToolTimeout "missing result" :: merge cs' []
        end
      else TRFail InvalidToolInput "unknown tool or invalid input" :: merge cs' rs
  end.

Definition dispatch_round (r : nat) (cs : list ToolCall) : list ToolResult :=
  let vs := filter valid cs in
  merge cs (execute registry vs (schedule r vs)).

Definition assistant_msg (t : string) (calls : list (ToolCall * ToolResult)) : Message :=
  {| m_role := RAssistant; m_content := t; m_calls := calls |}.

Definition step (s : LoopState) : LoopState :=
  match phase s with
  | AwaitingDecision =>
      match gateway (gw_calls s) (hist s) with
      | GwOk (FinalAnswer t) =>
          {| phase := Done (Answered t); hist := app (hist s) [assistant_msg t []];
             round := round s; attempt := attempt s; gw_calls := S (gw_calls s);
             trace := trace s |}
      | GwOk (ToolRequest cs) =>
          {| phase := Dispatching cs; hist := hist s;
             round := round s; attempt := 0; gw_calls := S (gw_calls s);
             trace := trace s |}
      | ModelUnavailable | ModelMalformedOutput =>
          if Nat.ltb (S (attempt s)) MAX_ATTEMPTS then
            {| phase := AwaitingDecision; hist := hist s;
               round := round s; attempt := S (attempt s); gw_calls := S (gw_calls s);
               trace := trace s |}
          else
            {| phase := Done ModelFailed;
               hist := app (hist s) [assistant_msg model_error_text []];
               round := round s; attempt := S (attempt s); gw_calls := S (gw_calls s);
               trace := trace s |}
      end
  | Dispatching cs =>
      let calls := combine cs (dispatch_round (round s) cs) in
      let h := app (hist s) [assistant_msg "" calls] in
      let r := S (round s) in
      if Nat.ltb MAX_ROUNDS r then
        {| phase := Done RoundLimitExceeded;
           hist := app h [assistant_msg round_limit_text []];
           round := r; attempt := attempt s; gw_calls := gw_calls s;
           trace := app (trace s) calls |}
      else
        {| phase := AwaitingDecision; hist := h;
           round := r; attempt := attempt s; gw_calls := gw_calls s;
           trace := app (trace s) calls |}
  | Done _ => s
  end.

Fixpoint run (fuel : nat) (s : LoopState) : LoopState :=
  match fuel with
  | 0 => s
  | S f => match phase s with
           | Done _ => s
           | _ => run f (step s)
           end
  end.

Definition start (h : list Message) : LoopState :=
  {| phase := AwaitingDecision; hist := h; round := 0; attempt := 0;
     gw_calls := 0; trace := [] |}.

(** Enough steps for any gateway (see the termination theorem). *)
Definition turn_fuel : nat := (MAX_ROUNDS + 1) * (MAX_ATTEMPTS + 1) + 1.

Definition final_outcome (s : LoopState) : Outcome :=
  match phase s with
  | Done o => o
  | _ => RoundLimitExceeded
  end.

Record TurnResult : Type := mkTurn {
  tr_response : string;
  tr_conversation_id : string;
  tr_tool_calls : list (ToolCall * ToolResult);
  tr_outcome : Outcome
}.

(** handleTurn(conversationId?, text) *)
Definition handle_turn (store : gmap string Conversation) (cid : option string)
  (text : string) (now : Z)
  : ServerError + (gmap string Conversation * TurnResult) :=
  let '(id, store0) := match cid with
                       | None => create now store
                       | Some id => (id, store)
                       end in
  match append id {| m_role := RUser; m_content := text; m_calls := [] |} now store0 with
  | inl e => inl e
  | inr store1 =>
      match history id store1 with
      | inl e => inl e
      | inr h =>
          let fin := run turn_fuel (start h) in
          let store2 := match store1 !! id with
                        | Some c => <[id := {| conv_messages := hist fin;
                                               created_at := created_at c;
                                               last_activity := now |}]> store1
                        | None => store1
                        end in
          inr (store2, {| tr_response := outcome_text (final_outcome fin);
                          tr_conversation_id := id;
                          tr_tool_calls := trace fin;
                          tr_outcome := final_outcome fin |})
      end
  end.

End Loop.

End Orchestration.
Import Orchestration.

Module Http.

(** Modelled from the spec: the backend's HTTP surface (section 6) the frontend
    calls.  Responses use the frontend's FetchOutcome. *)
Definition tool_output_json (r : ToolResult) : json :=
  match r with
  | TROk v => v
  | TRFail _ m => JObj [("error", JStr m)]
  end.

Definition tool_call_json (cr : ToolCall * ToolResult) : json :=
  JObj [("tool_name", JStr (tool_name cr.1));
        ("tool_input", tool_input cr.1);
        ("tool_output", tool_output_json cr.2)].

(** {response, conversation_id, tool_calls?} *)
Definition agent_response_json (tr : TurnResult) : json :=
  JObj (app [("response", JStr (tr_response tr));
             ("conversation_id", JStr (tr_conversation_id tr))]
            (match tr_tool_calls tr with
             | [] => []
             | tcs => [("tool_calls", JArr (map tool_call_json tcs))]
             end)).

Definition detail (msg : string) : json := JObj [("detail", JStr msg)].

Section Endpoints.
Variable registry : string -> option ToolSpec.
Variable gateway : nat -> list Message -> GwOutcome.
Variable schedule : nat -> list ToolCall -> list nat.

Definition turn_response (store : gmap string Conversation) (cid : option string)
  (q : string) (now : Z) : gmap string Conversation * FetchOutcome :=
  match handle_turn registry gateway schedule store cid q now with
  | inl NotFound => (store, HttpResponse false (Some (detail "Conversation not found")))
  | inr (store', tr) => (store', HttpResponse true (Some (agent_response_json tr)))
  end.

(** POST /api/agent with a JSON body; a body that is not of the
    declared shape is rejected by request validation (422). *)
Definition api_agent (store : gmap string Conversation) (body : json) (now : Z)
  : gmap string Conversation * FetchOutcome :=
  match body with
  | JObj fs =>
      match field_lookup "query" fs, field_lookup "conversation_id" fs with
      | Val (JStr q), Undefined => turn_response store None q now
      | Val (JStr q), Val JNull => turn_response store None q now
      | Val (JStr q), Val (JStr c) => turn_response store (Some c) q now
      | _, _ => (store, HttpResponse false (Some (detail "Invalid request body")))
      end
  | _ => (store, HttpResponse false (Some (detail "Invalid request body")))
  end.

End Endpoints.

(** DELETE /api/conversations/{conversation_id}: idempotent, no body. *)
Definition api_delete (store : gmap string Conversation) (id : string)
  : gmap string Conversation * FetchOutcome :=
  (delete_conv id store, HttpResponse true None).

End Http.
Import Http.

(* ===================================================================== *)
(* Part III  Shapes used by the statements                                *)
(* ===================================================================== *)

Module Shapes.

(** The optional `conversationId?: string` argument as a JS value. *)
Definition opt_js (cid : option string) : jsval :=
  match cid with
  | Some c => Val (JStr c)
  | None => Undefined
  end.

(** {response: string, conversation_id: string,
     tool_calls?: [{tool_name, tool_input, tool_output}]} *)
Definition tool_call_shape (it : json) : Prop :=
  exists n inp out,
    it = JObj [("tool_name", JStr n); ("tool_input", inp); ("tool_output", out)].

Definition agent_response_shape (j : json) : Prop :=
  exists r c tcs,
    j = JObj (app [("response", JStr r); ("conversation_id", JStr c)] tcs) /\
    (tcs = [] \/ exists items, tcs = [("tool_calls", JArr items)] /\
                               Forall tool_call_shape items).

End Shapes.
Import Shapes.

(* ===================================================================== *)
(* Part III.2  Drivers, measures and concrete inputs                      *)
(* ===================================================================== *)

Module Drivers.

(** The user types `txt` and submits; the agent request ends with the
    given outcome before the next submission. *)
Fixpoint submit_all (base : string) (st : ChatState) (turns : list (string * FetchOutcome))
  : list (option Request) * ChatState :=
  match turns with
  | [] => ([], st)
  | (txt, o) :: rest =>
      let '(req, st1) := handleSubmit base (set_input txt st) o in
      let '(reqs, st2) := submit_all base st1 rest in
      (req :: reqs, st2)
  end.

(** A bound on the remaining steps of the orchestration loop. *)
Definition loop_measure (s : LoopState) : nat :=
  match phase s with
  | Done _ => 0
  | Dispatching _ => 1 + (MAX_ROUNDS - round s) * (MAX_ATTEMPTS + 1)
  | AwaitingDecision =>
      (MAX_ATTEMPTS - attempt s) + 1 + (MAX_ROUNDS - round s) * (MAX_ATTEMPTS + 1)
  end.

Definition loop_inv (s : LoopState) : Prop :=
  match phase s with
  | Done _ => round s <= S MAX_ROUNDS
  | _ => round s <= MAX_ROUNDS /\ attempt s < MAX_ATTEMPTS
  end.

(** The fixed apologies of the backend model and of the client. *)
Definition apologetic (t : string) : Prop :=
  t = round_limit_text \/ t = model_error_text \/ t = error_text.

(** Two calls to a registered tool completing in reverse order. *)
Definition calc_registry (n : string) : option ToolSpec :=
  if String.eqb n "calculate"
  then Some {| validate := fun _ => true; executor := fun _ => TROk (JNum 450);
               cacheable := false |}
  else None.

(** A Model Gateway stub that requests a tool on every decision. *)
Definition always_tool_gateway (_ : nat) (_ : list Message) : GwOutcome :=
  GwOk (ToolRequest [mkCall "calculate" (JObj [("expression", JStr "15 * (23 + 7)")])]).

(** A gateway that asks for the weather, then answers whatever the
    tool returned. *)
Definition weather_gateway (n : nat) (_ : list Message) : GwOutcome :=
  match n with
  | 0 => GwOk (ToolRequest [mkCall "get_weather" (JObj [("location", JStr "Paris")])])
  | _ => GwOk (FinalAnswer "It is 21 degrees in Paris.")
  end.

(** Every dispatched call completes, last one first. *)
Definition reverse_schedule (_ : nat) (cs : list ToolCall) : list nat :=
  rev (seq 0 (List.length cs)).

(** A Model Gateway stub that is unavailable on every call. *)
Definition down_gateway (_ : nat) (_ : list Message) : GwOutcome := ModelUnavailable.

(** A loop about to dispatch a call to a tool that is not registered. *)
Definition unknown_tool_dispatch : LoopState :=
  {| phase := Dispatching [mkCall "get_weather" (JObj [("location", JStr "Paris")])];
     hist := []; round := 0; attempt := 0; gw_calls := 1; trace := [] |}.

(** Sample states for concrete runs of the chat handlers. *)
Definition initial_state_hi : ChatState := set_input "hi" initial_state.

Definition stale_state : ChatState :=
  {| messages := []; input := "And tomorrow?"; isLoading := false;
     conversationId := Val (JStr "conv-7") |}.

Definition stale_detail : json := JObj [("detail", JStr "Conversation not found")].

End Drivers.
Import Drivers.

(* ===================================================================== *)
(* Part IV  Theorems                                                      *)
(* ===================================================================== *)

(** Helper: the catch-all handler of startNewConversation resolves. *)
Lemma try_catch_swallow {A} (m : Settled A) (a : A) :
  exists a', try_catch m (fun _ => Resolved a) = Resolved a'.
Proof. destruct m; simpl; eauto. Qed.

(** C1: deleting any conversation id, known, never created or already
    deleted, succeeds: the DELETE endpoint answers 2xx with no body, the
    client's deleteConversation resolves, the id is absent afterwards,
    and deleting again changes nothing. *)
Theorem delete_conversation_idempotent (base : string)
  (store : gmap string Conversation) (id : string) :
  req_method (deleteConversation_request base (Val (JStr id))) = "DELETE" /\
  req_url (deleteConversation_request base (Val (JStr id)))
    = base ++ "/api/conversations/" ++ id /\
  deleteConversation_result (api_delete store id).2 = Resolved tt /\
  (api_delete store id).1 !! id = None /\
  api_delete (api_delete store id).1 id = api_delete store id.
Proof.
  unfold api_delete, delete_conv; simpl.
  split; [done|]. split; [done|]. split; [done|].
  split; [apply lookup_delete_eq|].
  by rewrite delete_delete_eq.
Qed.

(** C2: the body queryAgent posts to /api/agent is exactly
    {query} or {query, conversation_id} with string values, and every
    successful answer of the endpoint to that body has the shape
    {response, conversation_id, tool_calls?}. *)
Theorem agent_request_response_shape (base : string)
  (registry : string -> option ToolSpec)
  (gateway : nat -> list Message -> GwOutcome)
  (schedule : nat -> list ToolCall -> list nat)
  (store : gmap string Conversation) (q : string) (cid : option string) (now : Z) :
  req_method (queryAgent_request base q (opt_js cid)) = "POST" /\
  req_url (queryAgent_request base q (opt_js cid)) = base ++ "/api/agent" /\
  req_body (queryAgent_request base q (opt_js cid))
    = Some (JObj (("query", JStr q) ::
                  match cid with
                  | Some c => [("conversation_id", JStr c)]
                  | None => []
                  end)) /\
  (forall store' j body,
     req_body (queryAgent_request base q (opt_js cid)) = Some body ->
     api_agent registry gateway schedule store body now
       = (store', HttpResponse true (Some j)) ->
     agent_response_shape j).
Proof.
  assert (Hb : req_body (queryAgent_request base q (opt_js cid))
    = Some (JObj (("query", JStr q) ::
                  match cid with
                  | Some c => [("conversation_id", JStr c)]
                  | None => []
                  end))) by (destruct cid; reflexivity).
  split; [done|]. split; [done|]. split; [exact Hb|].
  intros store' j body Hbody Hres. rewrite Hb in Hbody. injection Hbody as <-.
  assert (Hturn : forall c, turn_response registry gateway schedule store c q now
                    = (store', HttpResponse true (Some j)) -> agent_response_shape j).
  { intros c. unfold turn_response.
    destruct (handle_turn registry gateway schedule store c q now) as [[]|[s tr]];
      [discriminate|].
    intros H. injection H as _ <-.
    unfold agent_response_shape, agent_response_json.
    exists (tr_response tr), (tr_conversation_id tr).
    destruct (tr_tool_calls tr) as [|x xs] eqn:E.
    - exists []. split; [done|]. by left.
    - eexists. split; [reflexivity|]. right. eexists. split; [reflexivity|].
      apply Forall_forall. intros it Hit.
      apply list_elem_of_In, in_map_iff in Hit as [cr [<- _]].
      unfold tool_call_shape, tool_call_json. eauto. }
  destruct cid as [c|]; simpl in Hres.
  - unfold field_lookup in Hres; simpl in Hres.
    eapply Hturn; exact Hres.
  - unfold field_lookup in Hres; simpl in Hres.
    eapply Hturn; exact Hres.
Qed.

(** C8 (as amended): checkHealth never throws.  It reports healthy,
    with apiKeyConfigured set to the body's api_key_configured property,
    exactly when the response is ok and its body parses to a JSON value
    other than null; otherwise (non-ok status, network failure, body that
    is not JSON, or a null body) it reports unhealthy without the
    apiKeyConfigured property. *)
Theorem checkHealth_never_throws (o : FetchOutcome) :
  exists h, checkHealth_result o = Resolved h /\
    (isHealthy h = true <-> exists j, o = HttpResponse true (Some j) /\ j <> JNull) /\
    (forall j, o = HttpResponse true (Some j) -> j <> JNull ->
       apiKeyConfigured h = get_prop (Val j) "api_key_configured") /\
    (isHealthy h = false -> apiKeyConfigured h = None).
Proof.
  destruct o as [|[] [j|]]; simpl.
  - eexists; split; [reflexivity|]. split; [|split]; [| discriminate | done].
    split; [discriminate|]. intros [j [H _]]; discriminate.
  - destruct j; simpl; eexists; (split; [reflexivity|]);
      (split; [|split]); try done;
      try (split; [intros _; eexists; split; [reflexivity|discriminate]|done]);
      try (intros ? [= <-]; done).
    split; [discriminate|]. intros [j [[= <-] Hn]]; done.
  - eexists; split; [reflexivity|]. split; [|split]; [| discriminate | done].
    split; [discriminate|]. intros [j [H _]]; discriminate.
  - eexists; split; [reflexivity|]. split; [|split]; [| discriminate | done].
    split; [discriminate|]. intros [j' [H _]]; discriminate.
  - eexists; split; [reflexivity|]. split; [|split]; [| discriminate | done].
    split; [discriminate|]. intros [j' [H _]]; discriminate.
Qed.

(** C8, as stated, fails: an ok response whose body is not JSON is
    reported unhealthy, so "healthy exactly when the response is ok"
    does not hold. *)
Lemma checkHealth_ok_but_unhealthy :
  ~ (forall o h, checkHealth_result o = Resolved h ->
                 (isHealthy h = true <-> exists b, o = HttpResponse true b)).
Proof.
  intros H.
  specialize (H (HttpResponse true None) {| isHealthy := false; apiKeyConfigured := None |}
                eq_refl).
  simpl in H. destruct H as [_ H]. discriminate (H (ex_intro _ None eq_refl)).
Qed.

(** C9: a submission whose input trims to the empty string sends no
    request and leaves the whole component state unchanged. *)
Theorem handleSubmit_blank_noop (base : string) (st : ChatState) (o : FetchOutcome)
  (Hblank : js_trim (input st) = "") :
  handleSubmit base st o = (None, st).
Proof.
  unfold handleSubmit, handleSubmit_start. rewrite Hblank. reflexivity.
Qed.

Lemma handleSubmit_blank_noop_witness :
  js_trim "  " = "" /\
  handleSubmit "http://localhost:8000"
    {| messages := []; input := "  "; isLoading := false; conversationId := Val JNull |}
    NetworkError
  = (None, {| messages := []; input := "  "; isLoading := false;
              conversationId := Val JNull |}).
Proof.
  split; [reflexivity|].
  apply (handleSubmit_blank_noop "http://localhost:8000"
           {| messages := []; input := "  "; isLoading := false;
              conversationId := Val JNull |} NetworkError).
  reflexivity.
Defined.

(** C10: startNewConversation always resolves and always resets the
    conversation id to null and the message list to empty, whatever the
    DELETE request ends with (network failure, error status, unparsable
    error body, success); it only sends the DELETE when an id is held. *)
Theorem startNewConversation_resets (base : string) (st : ChatState) (o : FetchOutcome) :
  let '(req, r, st') := startNewConversation base st o in
  r = Resolved tt /\ conversationId st' = Val JNull /\ messages st' = [] /\
  input st' = input st /\ isLoading st' = isLoading st /\
  req = (if truthy (conversationId st)
         then Some (deleteConversation_request base (conversationId st)) else None).
Proof.
  unfold startNewConversation.
  destruct (truthy (conversationId st)) eqn:Ht.
  - destruct (try_catch_swallow (deleteConversation_result o) tt) as [a Ha].
    rewrite Ha. destruct a. simpl. repeat split; reflexivity.
  - simpl. repeat split; reflexivity.
Qed.

(** Helper: lookups in `map`. *)
Lemma lookup_map_list {A B} (f : A -> B) (l : list A) (i : nat) :
  map f l !! i = f <$> l !! i.
Proof. revert i. induction l as [|x l IH]; intros [|i]; simpl; auto. Qed.

(** Helper: after the completions `sched`, slot i (of a call) is filled
    with that call's result when i completed, and is unchanged otherwise. *)
Lemma fold_complete_lookup (registry : string -> option ToolSpec)
  (calls : list ToolCall) (sched : list nat) (slots : list (option ToolResult)) :
  List.length slots = List.length calls ->
  List.length (fold_left (complete registry calls) sched slots) = List.length calls /\
  forall i c, calls !! i = Some c ->
    fold_left (complete registry calls) sched slots !! i
      = if existsb (Nat.eqb i) sched then Some (Some (run_call registry c))
        else slots !! i.
Proof.
  revert slots. induction sched as [|a sched IH]; intros slots Hlen; simpl.
  - split; [done|]. intros; done.
  - assert (Hlen' : List.length (complete registry calls slots a) = List.length calls).
    { unfold complete. destruct (calls !! a); [by rewrite length_insert|done]. }
    destruct (IH _ Hlen') as [IHl IHi]. split; [done|].
    intros i c Hc. rewrite (IHi i c Hc).
    destruct (Nat.eqb i a) eqn:Eia; simpl.
    + apply Nat.eqb_eq in Eia as ->.
      destruct (existsb (Nat.eqb a) sched); [done|].
      unfold complete. rewrite Hc. apply list_lookup_insert_eq.
      rewrite Hlen. by apply lookup_lt_Some in Hc.
    + destruct (existsb (Nat.eqb i) sched); [done|].
      unfold complete. destruct (calls !! a); [|done].
      apply list_lookup_insert_ne. apply Nat.eqb_neq in Eia. lia.
Qed.

(** C6: whatever order the concurrent executions complete in (any
    permutation of the call positions), the dispatcher returns one result
    per call, in the order of the calls. *)
Theorem execute_preserves_order (registry : string -> option ToolSpec)
  (calls : list ToolCall) (sched : list nat)
  (Hperm : Permutation sched (seq 0 (List.length calls))) :
  execute registry calls sched = map (run_call registry) calls /\
  List.length (execute registry calls sched) = List.length calls.
Proof.
  assert (Heq : execute registry calls sched = map (run_call registry) calls).
  { unfold execute.
    destruct (fold_complete_lookup registry calls sched
                (replicate (List.length calls) None)) as [Hl Hi];
      [apply length_replicate|].
    apply list_eq. intros i. rewrite !lookup_map_list.
    destruct (calls !! i) as [c|] eqn:Hc.
    - rewrite (Hi i c Hc).
      assert (Hin : existsb (Nat.eqb i) sched = true).
      { apply existsb_exists. exists i. split; [|apply Nat.eqb_refl].
        apply (Permutation_in _ (Permutation_sym Hperm)).
        apply in_seq. apply lookup_lt_Some in Hc. lia. }
      by rewrite Hin.
    - apply lookup_ge_None in Hc.
      assert (Hn : fold_left (complete registry calls) sched
                     (replicate (List.length calls) None) !! i = None)
        by (apply lookup_ge_None; lia).
      by rewrite Hn. }
  split; [exact Heq|]. rewrite Heq. apply length_map.
Qed.

Lemma execute_preserves_order_witness :
  Permutation [1; 0] (seq 0 (List.length [mkCall "calculate" (JObj []);
                                          mkCall "get_weather" (JObj [])])) /\
  execute calc_registry [mkCall "calculate" (JObj []); mkCall "get_weather" (JObj [])] [1; 0]
  = [TROk (JNum 450); TRFail ToolNotFound "unknown tool"].
Proof.
  assert (Hp : Permutation [1; 0] (seq 0 (List.length [mkCall "calculate" (JObj []);
                                          mkCall "get_weather" (JObj [])])))
    by (simpl; apply perm_swap).
  split; [exact Hp|].
  exact (proj1 (execute_preserves_order calc_registry _ _ Hp)).
Defined.

Module CacheFacts.
Import ResultCache.

(** Helper: a read never returns an expired entry. *)
Lemma cache_get_fresh (now : Z) (k : string * string)
  (c : gmap (string * string) CacheEntry) (v : json) :
  cache_get now k c = Some v ->
  exists e, c !! k = Some e /\ (now < ce_expiry e)%Z /\ ce_value e = v.
Proof.
  unfold cache_get. destruct (c !! k) as [e|]; [|discriminate].
  destruct (Z.ltb now (ce_expiry e)) eqn:E; [|discriminate].
  intros [= <-]. exists e. apply Z.ltb_lt in E. auto.
Qed.

Lemma cache_get_put_live (now t : Z) (k : string * string) (v : json) (ttl : Z) c :
  (now < t + ttl)%Z -> cache_get now k (cache_put t k v ttl c) = Some v.
Proof.
  intros H. unfold cache_get, cache_put. rewrite lookup_insert_eq. simpl.
  apply Z.ltb_lt in H. by rewrite H.
Qed.

Lemma cache_get_put_expired (now t : Z) (k : string * string) (v : json) (ttl : Z) c :
  (t + ttl <= now)%Z -> cache_get now k (cache_put t k v ttl c) = None.
Proof.
  intros H. unfold cache_get, cache_put. rewrite lookup_insert_eq. simpl.
  assert (Z.ltb now (t + ttl) = false) as -> by (apply Z.ltb_ge; lia). done.
Qed.

(** C7 (as amended).  For a cacheable tool and three calls at times
    t1 <= t2 < t1 + ttl <= t3 with canonically equal inputs:
    - if the first call succeeds, the first two calls run the executor
      at most once;
    - if moreover the first call found no live entry (so its result was
      cached at t1), the third call, after the entry expired, runs the
      executor again;
    - no read ever returns an entry at or past its expiry. *)
Theorem cache_ttl_idempotence (canon : json -> string) (ttl : Z)
  (exec : Z -> json -> ToolResult) (name : string) (i1 i2 i3 : json)
  (t1 t2 t3 : Z) (st0 : CacheState)
  (Hc2 : canon i2 = canon i1) (Hc3 : canon i3 = canon i1)
  (Hw1 : (t1 <= t2)%Z) (Hw2 : (t2 < t1 + ttl)%Z) (Hexp : (t1 + ttl <= t3)%Z) :
  ((exists v, (cached_invoke canon ttl exec name i1 t1 st0).1 = TROk v) ->
   exec_count (cached_invoke canon ttl exec name i2 t2
                 (cached_invoke canon ttl exec name i1 t1 st0).2).2
   <= S (exec_count st0)) /\
  ((exists v, (cached_invoke canon ttl exec name i1 t1 st0).1 = TROk v) ->
   cache_get t1 (name, canon i1) (entries st0) = None ->
   exec_count (cached_invoke canon ttl exec name i3 t3
                 (cached_invoke canon ttl exec name i2 t2
                    (cached_invoke canon ttl exec name i1 t1 st0).2).2).2
   = S (exec_count (cached_invoke canon ttl exec name i2 t2
                      (cached_invoke canon ttl exec name i1 t1 st0).2).2)) /\
  (forall now k v (c : gmap (string * string) CacheEntry),
     cache_get now k c = Some v ->
     exists e, c !! k = Some e /\ (now < ce_expiry e)%Z /\ ce_value e = v).
Proof.
  split; [|split; [|intros now k v c; apply cache_get_fresh]].
  - intros [v Hv]. unfold cached_invoke in *. rewrite Hc2.
    destruct (cache_get t1 (name, canon i1) (entries st0)) as [j|] eqn:G1; simpl.
    + destruct (cache_get t2 (name, canon i1) (entries st0)); simpl; lia.
    + simpl in Hv. rewrite Hv. simpl.
      rewrite cache_get_put_live by lia. simpl. lia.
  - intros [v Hv] G1. unfold cached_invoke in *. rewrite Hc2, Hc3, G1 in *.
    simpl in Hv. rewrite Hv. simpl.
    rewrite cache_get_put_live by lia. simpl.
    rewrite cache_get_put_expired by lia. simpl. done.
Qed.

Lemma cache_ttl_idempotence_witness :
  (fun _ : json => "paris") (JStr "Paris") = (fun _ : json => "paris") (JStr "paris") /\
  exec_count (cached_invoke (fun _ => "paris") 600 (fun _ _ => TROk (JNum 21))
                "get_weather" (JStr "paris") 10
                (cached_invoke (fun _ => "paris") 600 (fun _ _ => TROk (JNum 21))
                   "get_weather" (JStr "Paris") 0
                   {| entries := ∅; exec_count := 0 |}).2).2 <= 1.
Proof.
  split; [reflexivity|].
  apply (proj1 (cache_ttl_idempotence (fun _ => "paris") 600 (fun _ _ => TROk (JNum 21))
                  "get_weather" (JStr "Paris") (JStr "paris") (JStr "PARIS") 0 10 600
                  {| entries := ∅; exec_count := 0 |}
                  eq_refl eq_refl ltac:(lia) ltac:(lia) ltac:(lia))).
  exists (JNum 21). vm_compute. reflexivity.
Defined.

(** C7, as stated, fails: failures are not cached, so two calls within
    the TTL window whose executor fails (e.g. times out) both run it. *)
Lemma cache_failure_runs_twice :
  ~ (forall (canon : json -> string) (ttl : Z) (exec : Z -> json -> ToolResult)
        (name : string) (i1 i2 : json) (t1 t2 : Z) (st0 : CacheState),
        canon i1 = canon i2 -> (t1 <= t2)%Z -> (t2 < t1 + ttl)%Z ->
        exec_count (cached_invoke canon ttl exec name i2 t2
                      (cached_invoke canon ttl exec name i1 t1 st0).2).2
        <= S (exec_count st0)).
Proof.
  intros H.
  specialize (H (fun _ => "paris") 600%Z (fun _ _ => TRFail ToolTimeout "timeout")
                "get_weather" (JStr "Paris") (JStr "Paris") 0%Z 0%Z
                {| entries := ∅; exec_count := 0 |} eq_refl ltac:(lia) ltac:(lia)).
  vm_compute in H. lia.
Qed.

End CacheFacts.

Module LoopFacts.

Section Facts.
Variable registry : string -> option ToolSpec.
Variable gateway : nat -> list Message -> GwOutcome.
Variable schedule : nat -> list ToolCall -> list nat.

Abbreviation step := (step registry gateway schedule).
Abbreviation run := (run registry gateway schedule).

(** Helper: every step of an unfinished loop keeps the invariant and
    decreases the measure. *)
Lemma step_progress (s : LoopState) :
  loop_inv s -> (forall o, phase s <> Done o) ->
  loop_inv (step s) /\ loop_measure (step s) < loop_measure s.
Proof.
  unfold loop_inv, loop_measure, Orchestration.step.
  unfold MAX_ROUNDS, MAX_ATTEMPTS in *.
  destruct s as [ph h r a g tr]; simpl. intros Hinv Hnd.
  destruct ph as [|cs|o]; [| |by destruct (Hnd o)].
  - destruct Hinv as [Hr Ha].
    destruct (gateway g h) as [[t|cs]| |]; simpl; try lia.
    + destruct (Nat.ltb (S a) 3) eqn:E; simpl;
        [apply Nat.ltb_lt in E | apply Nat.ltb_ge in E]; lia.
    + destruct (Nat.ltb (S a) 3) eqn:E; simpl;
        [apply Nat.ltb_lt in E | apply Nat.ltb_ge in E]; lia.
  - destruct Hinv as [Hr Ha].
    destruct (Nat.ltb 4 (S r)) eqn:E; simpl;
      [apply Nat.ltb_lt in E | apply Nat.ltb_ge in E]; lia.
Qed.

(** Helper: with enough fuel the loop reaches Done, after at most
    MAX_ROUNDS + 1 dispatch cycles. *)
Lemma run_reaches_done (fuel : nat) (s : LoopState) :
  loop_inv s -> loop_measure s <= fuel ->
  (exists o, phase (run fuel s) = Done o) /\ round (run fuel s) <= S MAX_ROUNDS.
Proof.
  revert s. induction fuel as [|fuel IH]; intros s Hinv Hm.
  - unfold loop_measure, loop_inv in *. simpl.
    destruct (phase s) as [| |o]; [lia|lia|]. eauto.
  - simpl. destruct (phase s) as [|cs|o] eqn:Hph.
    + destruct (step_progress s) as [Hi' Hm']; [done|by rewrite Hph|].
      apply IH; [done|lia].
    + destruct (step_progress s) as [Hi' Hm']; [done|by rewrite Hph|].
      apply IH; [done|lia].
    + unfold loop_inv in Hinv. rewrite Hph in Hinv. eauto.
Qed.

Lemma start_inv (h : list Message) : loop_inv (start h) /\ loop_measure (start h) <= turn_fuel.
Proof. unfold loop_inv, loop_measure, start, turn_fuel, MAX_ROUNDS, MAX_ATTEMPTS; simpl; lia. Qed.

End Facts.

(** C5 (the failing case).  Every turn's loop reaches Done within
    turn_fuel steps for any Model Gateway, after at most MAX_ROUNDS + 1
    AwaitingDecision -> Dispatching cycles; but a gateway that requests
    a tool on every decision gets MAX_ROUNDS + 1 = 5 dispatch cycles, one
    more than the bound MAX_ROUNDS, because the round counter is tested
    for exceeding MAX_ROUNDS after each dispatch. *)
Theorem round_limit_off_by_one :
  (forall registry gateway schedule (h : list Message),
     (exists o, phase (Orchestration.run registry gateway schedule turn_fuel (start h)) = Done o) /\
     round (Orchestration.run registry gateway schedule turn_fuel (start h)) <= S MAX_ROUNDS) /\
  phase (Orchestration.run calc_registry always_tool_gateway reverse_schedule turn_fuel (start []))
    = Done RoundLimitExceeded /\
  round (Orchestration.run calc_registry always_tool_gateway reverse_schedule turn_fuel (start []))
    = S MAX_ROUNDS.
Proof.
  split.
  - intros registry gateway schedule h.
    destruct (start_inv h) as [Hi Hm].
    by apply run_reaches_done.
  - split; vm_compute; reflexivity.
Qed.

End LoopFacts.

Module TurnFacts.

#[local] Arguments Orchestration.run : simpl never.

(** Helper: the core's handleTurn fails only when continuing an unknown
    conversation. *)
Lemma handle_turn_error_iff registry gateway schedule
  (store : gmap string Conversation) (cid : option string) (text : string) (now : Z) :
  match handle_turn registry gateway schedule store cid text now with
  | inl e => e = NotFound /\ exists id, cid = Some id /\ store !! id = None
  | inr (store', tr) =>
      tr_response tr = outcome_text (tr_outcome tr) /\
      is_Some (store' !! tr_conversation_id tr)
  end.
Proof.
  unfold handle_turn, append, history.
  destruct cid as [id|].
  - destruct (store !! id) as [c|] eqn:Hs.
    + repeat (rewrite lookup_insert_eq; simpl).
      split; [done|]. eexists; reflexivity.
    + split; [done|]. eauto.
  - unfold create. repeat (rewrite lookup_insert_eq; simpl).
    split; [done|]. eexists; reflexivity.
Qed.

Lemma combine_lookup {A B} (l1 : list A) (l2 : list B) (i : nat) (a : A) (b : B) :
  l1 !! i = Some a -> l2 !! i = Some b -> combine l1 l2 !! i = Some (a, b).
Proof.
  revert l2 i. induction l1 as [|x l1 IH]; intros [|y l2] [|i] H1 H2;
    simpl in *; try discriminate; [congruence|auto].
Qed.

(** Helper: a call rejected by validation gets the synthesized failure. *)
Lemma merge_invalid registry (cs : list ToolCall) :
  forall rs i c, cs !! i = Some c -> valid registry c = false ->
  merge registry cs rs !! i = Some (TRFail InvalidToolInput "unknown tool or invalid input").
Proof.
  induction cs as [|c' cs IH]; intros rs [|i] c Hc Hv; simpl in *; try discriminate.
  - inversion Hc; subst. rewrite Hv. reflexivity.
  - destruct (valid registry c'); [destruct rs|]; simpl; eapply IH; eassumption.
Qed.

(** Helper: a valid call takes the dispatcher's result for its position
    among the valid calls, or a failure when there is none. *)
Lemma merge_valid registry (cs : list ToolCall) :
  forall rs i c, cs !! i = Some c -> valid registry c = true ->
  exists j, filter (valid registry) cs !! j = Some c /\
    merge registry cs rs !! i
      = Some (match rs !! j with Some r => r | None => TRFail ToolTimeout "missing result" end).
Proof.
  induction cs as [|c' cs IH]; intros rs [|i] c Hc Hv; simpl in *; try discriminate.
  - inversion Hc; subst. exists 0. rewrite filter_cons, decide_True by (rewrite Hv; exact I).
    rewrite Hv. destruct rs; split; reflexivity.
  - destruct (valid registry c') eqn:Hv'.
    + rewrite filter_cons, decide_True by (rewrite Hv'; exact I).
      destruct rs as [|r rs].
      * destruct (IH [] i c Hc Hv) as (j & Hj & Hm). exists (S j).
        split; [exact Hj|]. simpl. rewrite Hm. reflexivity.
      * destruct (IH rs i c Hc Hv) as (j & Hj & Hm). exists (S j).
        split; [exact Hj|]. simpl. exact Hm.
    + rewrite filter_cons, decide_False by (rewrite Hv'; tauto).
      exact (IH rs i c Hc Hv).
Qed.

(** Helper: a dispatched call ends with its own result or a timeout. *)
Lemma execute_lookup registry (calls : list ToolCall) (sched : list nat) (j : nat)
  (c : ToolCall) :
  calls !! j = Some c ->
  execute registry calls sched !! j = Some (run_call registry c) \/
  execute registry calls sched !! j = Some (TRFail ToolTimeout "dispatch deadline exceeded").
Proof.
  intros Hc. unfold execute. rewrite lookup_map_list.
  destruct (fold_complete_lookup registry calls sched (replicate (List.length calls) None))
    as [_ Hi]; [apply length_replicate|].
  rewrite (Hi j c Hc). destruct (existsb (Nat.eqb j) sched); [left; reflexivity|].
  right. rewrite lookup_replicate_2; [reflexivity|].
  apply lookup_lt_Some in Hc. exact Hc.
Qed.

(** Helper: a call that is invalid or whose executor fails gets a
    failure result from its dispatch round. *)
Lemma dispatch_round_failure registry schedule (r : nat) (cs : list ToolCall) (i : nat)
  (c : ToolCall) :
  cs !! i = Some c ->
  (valid registry c = false \/ exists k m, run_call registry c = TRFail k m) ->
  exists k m, dispatch_round registry schedule r cs !! i = Some (TRFail k m).
Proof.
  intros Hc Hf. unfold dispatch_round.
  destruct (valid registry c) eqn:Hv.
  - destruct Hf as [Hf|(k & m & Hk)]; [discriminate|].
    destruct (merge_valid registry cs
                (execute registry (filter (valid registry) cs)
                   (schedule r (filter (valid registry) cs))) i c Hc Hv) as (j & Hj & ->).
    destruct (execute_lookup registry (filter (valid registry) cs)
                (schedule r (filter (valid registry) cs)) j c Hj) as [-> | ->];
      [rewrite Hk|]; eauto.
  - rewrite (merge_invalid registry cs _ i c Hc Hv). eauto.
Qed.

(** Helper: a dispatch before the round limit appends the calls with
    their results to the history and returns to the model. *)
Lemma dispatch_step registry gateway schedule (s : LoopState) (cs : list ToolCall) :
  phase s = Dispatching cs -> round s < MAX_ROUNDS ->
  phase (Orchestration.step registry gateway schedule s) = AwaitingDecision /\
  hist (Orchestration.step registry gateway schedule s)
    = app (hist s) [assistant_msg "" (combine cs (dispatch_round registry schedule (round s) cs))].
Proof.
  intros Hp Hr. unfold Orchestration.step. rewrite Hp.
  assert (E : Nat.ltb MAX_ROUNDS (S (round s)) = false) by (apply Nat.ltb_ge; lia).
  rewrite E. split; reflexivity.
Qed.

Lemma run_S registry gateway schedule (f : nat) (s : LoopState) :
  Orchestration.run registry gateway schedule (S f) s
  = match phase s with
    | Done _ => s
    | _ => Orchestration.run registry gateway schedule f
             (Orchestration.step registry gateway schedule s)
    end.
Proof. reflexivity. Qed.

Lemma run_done registry gateway schedule (f : nat) (s : LoopState) (o : Outcome) :
  phase s = Done o -> Orchestration.run registry gateway schedule f s = s.
Proof. intros Hp. destruct f; [reflexivity|]. rewrite run_S, Hp. reflexivity. Qed.

(** Helper: a gateway that fails on every call ends the loop with
    ModelFailed once the attempts are used up. *)
Lemma failing_gateway_run registry gateway schedule
  (Hg : forall n h, gateway n h = ModelUnavailable \/ gateway n h = ModelMalformedOutput) :
  forall k s f, phase s = AwaitingDecision -> attempt s + S k = MAX_ATTEMPTS -> S k <= f ->
  phase (Orchestration.run registry gateway schedule f s) = Done ModelFailed.
Proof.
  induction k as [|k IH]; intros s f Hp Ha Hf;
    (destruct f as [|f]; [lia|]); rewrite run_S, Hp;
    (assert (Hstep : phase (Orchestration.step registry gateway schedule s)
                       = (if Nat.ltb (S (attempt s)) MAX_ATTEMPTS then AwaitingDecision
                          else Done ModelFailed) /\
                     attempt (Orchestration.step registry gateway schedule s) = S (attempt s))
      by (unfold Orchestration.step; rewrite Hp;
          destruct (Hg (gw_calls s) (hist s)) as [-> | ->];
          destruct (Nat.ltb (S (attempt s)) MAX_ATTEMPTS); split; reflexivity));
    destruct Hstep as [Hph Hat].
  - assert (E : Nat.ltb (S (attempt s)) MAX_ATTEMPTS = false) by (apply Nat.ltb_ge; lia).
    rewrite E in Hph. rewrite (run_done _ _ _ f _ ModelFailed Hph). exact Hph.
  - assert (E : Nat.ltb (S (attempt s)) MAX_ATTEMPTS = true) by (apply Nat.ltb_lt; lia).
    rewrite E in Hph. apply IH; [exact Hph|lia|lia].
Qed.

(** Helper: a gateway that requests tools on every decision ends the
    loop with RoundLimitExceeded. *)
Lemma tool_gateway_run registry gateway schedule
  (Hg : forall n h, exists cs, gateway n h = GwOk (ToolRequest cs)) :
  forall k s f, phase s = AwaitingDecision -> round s + S k = S MAX_ROUNDS ->
  2 * S k <= f ->
  phase (Orchestration.run registry gateway schedule f s) = Done RoundLimitExceeded.
Proof.
  induction k as [|k IH]; intros s f Hp Hr Hf;
    (destruct f as [|[|f]]; [lia|lia|]);
    rewrite run_S, Hp;
    (destruct (Hg (gw_calls s) (hist s)) as [cs Hcs]);
    (assert (H1 : Orchestration.step registry gateway schedule s =
             {| phase := Dispatching cs; hist := hist s; round := round s; attempt := 0;
                gw_calls := S (gw_calls s); trace := trace s |})
       by (unfold Orchestration.step; rewrite Hp, Hcs; reflexivity));
    rewrite H1, run_S; cbn [phase];
    unfold Orchestration.step at 1; cbn [phase round hist trace attempt gw_calls].
  - assert (E : Nat.ltb MAX_ROUNDS (S (round s)) = true) by (apply Nat.ltb_lt; lia).
    rewrite E. rewrite (run_done _ _ _ _ _ RoundLimitExceeded) by reflexivity.
    reflexivity.
  - assert (E : Nat.ltb MAX_ROUNDS (S (round s)) = false) by (apply Nat.ltb_ge; lia).
    rewrite E. apply IH; [reflexivity|simpl; lia|lia].
Qed.

(** Helper: the outcome of a turn is the final outcome of the loop run
    on the conversation's history, and its text that outcome's text. *)
Lemma handle_turn_outcome registry gateway schedule
  (store : gmap string Conversation) (cid : option string) (text : string) (now : Z) :
  match handle_turn registry gateway schedule store cid text now with
  | inl _ => True
  | inr (_, tr) =>
      exists h, tr_outcome tr
                  = final_outcome (Orchestration.run registry gateway schedule turn_fuel (start h)) /\
                tr_response tr = outcome_text (tr_outcome tr)
  end.
Proof.
  unfold handle_turn, append, history.
  destruct cid as [id|].
  - destruct (store !! id) as [c|] eqn:Hs; [|exact I].
    repeat (rewrite lookup_insert_eq; simpl). eauto.
  - unfold create. repeat (rewrite lookup_insert_eq; simpl). eauto.
Qed.

(** C4 (as amended).  (1) handleTurn answers every turn on a new or a
    known conversation with a TurnResult, and its only error is NotFound
    when continuing an unknown id; its text is the model's answer or a
    fixed apology.  (2) With a Model Gateway that fails on every call,
    every turn ends ModelFailed with the fixed model-error apology.
    (3) With a gateway that requests tools on every decision, every turn
    ends RoundLimitExceeded with the fixed round-limit apology.  (4) A
    tool call that fails (rejected by validation, or whose executor
    returns a failure) is recorded in the history handed back to the
    model, paired with a failure ToolResult; the loop then asks the
    model again.  (5) DELETE never fails.  (6) In the client, any failed
    agent request ends in the apologetic assistant message. *)
Theorem turn_failures_resolve_to_answers (base : string) registry gateway schedule
  (store : gmap string Conversation) (cid : option string) (text : string) (now : Z) :
  (match handle_turn registry gateway schedule store cid text now with
   | inl e => e = NotFound /\ exists id, cid = Some id /\ store !! id = None
   | inr (_, tr) =>
       tr_outcome tr = Answered (tr_response tr) \/
       ((tr_outcome tr = RoundLimitExceeded \/ tr_outcome tr = ModelFailed) /\
        apologetic (tr_response tr))
   end) /\
  (forall failing_gateway : nat -> list Message -> GwOutcome,
     (forall n h, failing_gateway n h = ModelUnavailable \/
                  failing_gateway n h = ModelMalformedOutput) ->
     match handle_turn registry failing_gateway schedule store cid text now with
     | inl e => e = NotFound
     | inr (_, tr) => tr_outcome tr = ModelFailed /\ tr_response tr = model_error_text
     end) /\
  (forall tool_gateway : nat -> list Message -> GwOutcome,
     (forall n h, exists cs, tool_gateway n h = GwOk (ToolRequest cs)) ->
     match handle_turn registry tool_gateway schedule store cid text now with
     | inl e => e = NotFound
     | inr (_, tr) => tr_outcome tr = RoundLimitExceeded /\ tr_response tr = round_limit_text
     end) /\
  (forall (s : LoopState) (cs : list ToolCall) (i : nat) (c : ToolCall),
     phase s = Dispatching cs -> round s < MAX_ROUNDS -> cs !! i = Some c ->
     (valid registry c = false \/ exists k m, run_call registry c = TRFail k m) ->
     phase (Orchestration.step registry gateway schedule s) = AwaitingDecision /\
     exists calls k m,
       hist (Orchestration.step registry gateway schedule s)
         = app (hist s) [assistant_msg "" calls] /\
       calls !! i = Some (c, TRFail k m)) /\
  (forall id, (api_delete store id).2 = HttpResponse true None) /\
  (forall (st : ChatState) (o : FetchOutcome) (e : throwable),
     js_trim (input st) <> "" -> queryAgent_result o = Rejected e ->
     messages (handleSubmit base st o).2
       = app (messages st)
           [{| role := User; content := Val (JStr (input st)); toolCalls := Undefined |};
            error_message]).
Proof.
  split; [|split; [|split; [|split; [|split; [done|]]]]].
  - pose proof (handle_turn_error_iff registry gateway schedule store cid text now) as H.
    destruct (handle_turn registry gateway schedule store cid text now) as [e|[s tr]];
      [exact H|].
    destruct H as [Hr _]. rewrite Hr. unfold apologetic.
    destruct (tr_outcome tr) as [t| |]; simpl; [by left| |]; right; split; auto.
  - intros fg Hg.
    pose proof (handle_turn_error_iff registry fg schedule store cid text now) as He.
    pose proof (handle_turn_outcome registry fg schedule store cid text now) as H.
    destruct (handle_turn registry fg schedule store cid text now) as [e|[s tr]];
      [exact (proj1 He)|].
    destruct H as (h & Ho & Hr).
    assert (Hd : phase (Orchestration.run registry fg schedule turn_fuel (start h))
                 = Done ModelFailed)
      by (apply (failing_gateway_run registry fg schedule Hg (pred MAX_ATTEMPTS));
          unfold turn_fuel, MAX_ROUNDS, MAX_ATTEMPTS; simpl; first [reflexivity|lia]).
    unfold final_outcome in Ho. rewrite Hd in Ho. rewrite Hr, Ho. split; reflexivity.
  - intros tg Hg.
    pose proof (handle_turn_error_iff registry tg schedule store cid text now) as He.
    pose proof (handle_turn_outcome registry tg schedule store cid text now) as H.
    destruct (handle_turn registry tg schedule store cid text now) as [e|[s tr]];
      [exact (proj1 He)|].
    destruct H as (h & Ho & Hr).
    assert (Hd : phase (Orchestration.run registry tg schedule turn_fuel (start h))
                 = Done RoundLimitExceeded)
      by (apply (tool_gateway_run registry tg schedule Hg MAX_ROUNDS);
          unfold turn_fuel, MAX_ROUNDS, MAX_ATTEMPTS; simpl; first [reflexivity|lia]).
    unfold final_outcome in Ho. rewrite Hd in Ho. rewrite Hr, Ho. split; reflexivity.
  - intros s cs i c Hp Hr Hc Hf.
    destruct (dispatch_step registry gateway schedule s cs Hp Hr) as [Hph Hh].
    split; [exact Hph|].
    destruct (dispatch_round_failure registry schedule (round s) cs i c Hc Hf) as (k & m & Hk).
    exists (combine cs (dispatch_round registry schedule (round s) cs)), k, m.
    split; [exact Hh|]. exact (combine_lookup _ _ i c _ Hc Hk).
  - intros st o e Hne Hrej. unfold handleSubmit, handleSubmit_start.
    destruct (String.eqb (js_trim (input st)) "") eqn:E;
      [by apply String.eqb_eq in E|].
    simpl. rewrite E. simpl. rewrite Hrej. simpl.
    by rewrite <- app_assoc.
Qed.

Lemma turn_failures_resolve_to_answers_witness :
  (forall n h, down_gateway n h = ModelUnavailable \/ down_gateway n h = ModelMalformedOutput) /\
  match handle_turn calc_registry down_gateway reverse_schedule ∅ None "hi" 0 with
  | inl e => e = NotFound
  | inr (_, tr) => tr_outcome tr = ModelFailed /\ tr_response tr = model_error_text
  end /\
  (forall n h, exists cs, always_tool_gateway n h = GwOk (ToolRequest cs)) /\
  match handle_turn calc_registry always_tool_gateway reverse_schedule ∅ None "hi" 0 with
  | inl e => e = NotFound
  | inr (_, tr) => tr_outcome tr = RoundLimitExceeded /\ tr_response tr = round_limit_text
  end /\
  phase (Orchestration.step calc_registry weather_gateway reverse_schedule
           unknown_tool_dispatch) = AwaitingDecision.
Proof.
  assert (Hd : forall n h, down_gateway n h = ModelUnavailable \/
                           down_gateway n h = ModelMalformedOutput)
    by (intros; left; reflexivity).
  assert (Ht : forall n h, exists cs, always_tool_gateway n h = GwOk (ToolRequest cs))
    by (intros; eexists; reflexivity).
  assert (Hv : valid calc_registry (mkCall "get_weather" (JObj [("location", JStr "Paris")]))
               = false \/
               exists k m, run_call calc_registry
                             (mkCall "get_weather" (JObj [("location", JStr "Paris")]))
                           = TRFail k m)
    by (left; reflexivity).
  assert (Hr : round unknown_tool_dispatch < MAX_ROUNDS) by (unfold MAX_ROUNDS; simpl; lia).
  pose proof (turn_failures_resolve_to_answers "http://localhost:8000" calc_registry
                weather_gateway reverse_schedule ∅ None "hi" 0) as (_ & H2 & H3 & H4 & _).
  split; [exact Hd|]. split; [exact (H2 down_gateway Hd)|].
  split; [exact Ht|]. split; [exact (H3 always_tool_gateway Ht)|].
  exact (proj1 (H4 unknown_tool_dispatch _ 0 _ eq_refl Hr eq_refl Hv)).
Defined.

(** C4, as stated, fails: a turn whose tool call fails (here an unknown
    tool) ends with whatever the model answers next, which need not be
    an apology. *)
Lemma tool_failure_answer_not_apologetic :
  match handle_turn calc_registry weather_gateway reverse_schedule ∅ None
          "What is the weather in Paris?" 0 with
  | inr (_, tr) =>
      (exists c k m, In (c, TRFail k m) (tr_tool_calls tr)) /\
      tr_response tr = "It is 21 degrees in Paris." /\
      ~ apologetic (tr_response tr)
  | inl _ => False
  end.
Proof.
  vm_compute. split; [eexists _, _, _; left; reflexivity|].
  split; [reflexivity|].
  intros [H|[H|H]]; discriminate H.
Qed.

End TurnFacts.

Module IdFacts.

#[local] Arguments Orchestration.run : simpl never.

(** Helper: conversation ids made by the store are never empty. *)
Lemma fresh_conv_nonempty {A} (m : gmap string A) : fresh_string "conv" m <> "".
Proof.
  unfold fresh_string. destruct (m !! "conv"); [|discriminate].
  generalize 0%N (wf_guard 32 (fresh_string_R_wf "conv" m) 0%N).
  fix FIX 2. intros n [acc]. simpl. unfold fresh_string_go at 1. simpl.
  destruct (Some_dec _) as [[? ?]|?]; [apply FIX|discriminate].
Qed.

(** Helper: a turn without id creates a conversation under a fresh id. *)
Lemma handle_turn_new registry gateway schedule
  (store : gmap string Conversation) (text : string) (now : Z) :
  exists store' tr,
    handle_turn registry gateway schedule store None text now = inr (store', tr) /\
    tr_conversation_id tr = fresh_string "conv" store /\
    is_Some (store' !! fresh_string "conv" store).
Proof.
  unfold handle_turn, create, append, history.
  repeat (rewrite lookup_insert_eq; simpl).
  do 2 eexists. split; [reflexivity|]. split; [reflexivity|].
  rewrite lookup_insert_eq. eexists; reflexivity.
Qed.

(** Helper: the fields of the agent response as the client reads them. *)
Lemma agent_response_props (tr : TurnResult) :
  get_prop (Val (agent_response_json tr)) "conversation_id"
    = Some (Val (JStr (tr_conversation_id tr))) /\
  get_prop (Val (agent_response_json tr)) "response" = Some (Val (JStr (tr_response tr))) /\
  is_Some (get_prop (Val (agent_response_json tr)) "tool_calls").
Proof.
  unfold agent_response_json, get_prop, field_lookup.
  destruct (tr_tool_calls tr); simpl; repeat split; eexists; reflexivity.
Qed.

(** Helper: the continuation of handleSubmit never replaces an id that
    was held when the turn was submitted. *)
Lemma finish_keeps_id (p : PendingTurn) (r : Settled json) (st : ChatState) :
  truthy (pend_captured p) = true ->
  conversationId (handleSubmit_finish p r st) = conversationId st.
Proof.
  intros H. unfold handleSubmit_finish.
  destruct r as [resp|e]; [|reflexivity].
  destruct (get_prop (Val resp) "conversation_id") as [cid|]; [|reflexivity].
  rewrite H, andb_false_r.
  destruct (get_prop (Val resp) "response"), (get_prop (Val resp) "tool_calls");
    reflexivity.
Qed.

(** Helper: once an id is held, handleSubmit keeps it and sends it. *)
Lemma handleSubmit_keeps_id (base : string) (st : ChatState) (o : FetchOutcome) :
  truthy (conversationId st) = true ->
  conversationId (handleSubmit base st o).2 = conversationId st /\
  ((handleSubmit base st o).1 = None \/
   (handleSubmit base st o).1 = Some (queryAgent_request base (input st) (conversationId st))).
Proof.
  intros Ht. unfold handleSubmit, handleSubmit_start.
  destruct (negb (truthy (Val (JStr (js_trim (input st)))))).
  - split; [reflexivity|left; reflexivity].
  - cbv beta iota zeta delta [fst snd]. split.
    + rewrite finish_keeps_id; [reflexivity|exact Ht].
    + right. unfold js_or. rewrite Ht. reflexivity.
Qed.

Lemma submit_all_keeps_id (base : string) (turns : list (string * FetchOutcome)) :
  forall st, truthy (conversationId st) = true ->
  conversationId (submit_all base st turns).2 = conversationId st /\
  Forall (fun r => r = None \/
                   exists q, r = Some (queryAgent_request base q (conversationId st)))
         (submit_all base st turns).1.
Proof.
  induction turns as [|[txt o] rest IH]; intros st Ht; simpl; [split; constructor|].
  pose proof (handleSubmit_keeps_id base (set_input txt st) o Ht) as [Hid Hreq].
  destruct (handleSubmit base (set_input txt st) o) as [req st1] eqn:E. simpl in *.
  rewrite <- Hid in Ht. destruct (IH st1 Ht) as [Hid' Hall].
  destruct (submit_all base st1 rest) as [reqs st2]. simpl in *.
  split; [congruence|]. constructor.
  - destruct Hreq as [-> | ->]; [by left|right; eauto].
  - rewrite Hid in Hall. exact Hall.
Qed.

(** Helper: the first successful turn makes the client hold the id
    returned by the server. *)
Lemma first_turn_holds_id (base : string) (st : ChatState) (tr : TurnResult) :
  conversationId st = Val JNull -> js_trim (input st) <> "" ->
  tr_conversation_id tr <> "" ->
  (handleSubmit base st (HttpResponse true (Some (agent_response_json tr)))).1
    = Some (queryAgent_request base (input st) Undefined) /\
  conversationId (handleSubmit base st (HttpResponse true (Some (agent_response_json tr)))).2
    = Val (JStr (tr_conversation_id tr)).
Proof.
  intros Hn Ht Hid. destruct (agent_response_props tr) as (Hc & Hr & [tc Htc]).
  unfold handleSubmit, handleSubmit_start.
  assert (Htr : negb (truthy (Val (JStr (js_trim (input st))))) = false).
  { simpl. destruct (String.eqb (js_trim (input st)) "") eqn:E; [|reflexivity].
    apply String.eqb_eq in E. contradiction. }
  rewrite Htr. cbv beta iota zeta delta [fst snd]. rewrite Hn. split; [reflexivity|].
  unfold handleSubmit_finish. cbn [queryAgent_result response_json].
  rewrite Hc, Hr, Htc.
  assert (Hti : truthy (Val (JStr (tr_conversation_id tr))) = true).
  { simpl. destruct (String.eqb (tr_conversation_id tr) "") eqn:E; [|reflexivity].
    apply String.eqb_eq in E. contradiction. }
  rewrite Hti. reflexivity.
Qed.

(** C3: a turn sent without a conversation id creates a conversation
    under a fresh, non-empty id and returns it; the client then holds
    exactly that id, and every later submission (with no reset in
    between) keeps it and sends it as conversation_id. *)
Theorem conversation_id_created_and_reused (base : string)
  (registry : string -> option ToolSpec)
  (gateway : nat -> list Message -> GwOutcome)
  (schedule : nat -> list ToolCall -> list nat)
  (store : gmap string Conversation) (now : Z) (st : ChatState)
  (turns : list (string * FetchOutcome))
  (Hnull : conversationId st = Val JNull) (Htext : js_trim (input st) <> "") :
  store !! fresh_string "conv" store = None /\
  exists store' tr,
    req_body (queryAgent_request base (input st) Undefined)
      = Some (JObj [("query", JStr (input st))]) /\
    api_agent registry gateway schedule store (JObj [("query", JStr (input st))]) now
      = (store', HttpResponse true (Some (agent_response_json tr))) /\
    tr_conversation_id tr = fresh_string "conv" store /\
    is_Some (store' !! fresh_string "conv" store) /\
    (handleSubmit base st (HttpResponse true (Some (agent_response_json tr)))).1
      = Some (queryAgent_request base (input st) Undefined) /\
    conversationId (handleSubmit base st (HttpResponse true (Some (agent_response_json tr)))).2
      = Val (JStr (fresh_string "conv" store)) /\
    conversationId
      (submit_all base
         (handleSubmit base st (HttpResponse true (Some (agent_response_json tr)))).2
         turns).2
      = Val (JStr (fresh_string "conv" store)) /\
    Forall (fun r => r = None \/
               exists q, r = Some (queryAgent_request base q
                                     (Val (JStr (fresh_string "conv" store)))))
      (submit_all base
         (handleSubmit base st (HttpResponse true (Some (agent_response_json tr)))).2
         turns).1.
Proof.
  split; [apply fresh_string_fresh|].
  destruct (handle_turn_new registry gateway schedule store (input st) now)
    as (store' & tr & Hh & Hid & Hin).
  exists store', tr.
  assert (Hne : tr_conversation_id tr <> "") by (rewrite Hid; apply fresh_conv_nonempty).
  destruct (first_turn_holds_id base st tr Hnull Htext Hne) as [Hreq Hheld].
  rewrite Hid in Hheld.
  set (st1 := (handleSubmit base st (HttpResponse true (Some (agent_response_json tr)))).2)
    in *.
  assert (Ht1 : truthy (conversationId st1) = true).
  { rewrite Hheld. simpl. rewrite <- Hid.
    destruct (String.eqb (tr_conversation_id tr) "") eqn:E; [|reflexivity].
    apply String.eqb_eq in E. contradiction. }
  destruct (submit_all_keeps_id base turns st1 Ht1) as [Hk Hall].
  rewrite Hheld in Hk, Hall.
  split; [reflexivity|]. split.
  { change (api_agent registry gateway schedule store (JObj [("query", JStr (input st))]) now)
      with (turn_response registry gateway schedule store None (input st) now).
    unfold turn_response. rewrite Hh. reflexivity. }
  do 5 (split; [assumption|]). exact Hall.
Qed.

Lemma conversation_id_created_and_reused_witness :
  conversationId {| messages := []; input := "Calculate 15 * (23 + 7)";
                    isLoading := false; conversationId := Val JNull |} = Val JNull /\
  js_trim "Calculate 15 * (23 + 7)" <> "" /\
  (∅ : gmap string Conversation) !! fresh_string "conv" (∅ : gmap string Conversation) = None.
Proof.
  assert (Ht : js_trim "Calculate 15 * (23 + 7)" <> "") by (vm_compute; discriminate).
  split; [reflexivity|]. split; [exact Ht|].
  exact (proj1 (conversation_id_created_and_reused "http://localhost:8000"
                  calc_registry weather_gateway reverse_schedule ∅ 0
                  {| messages := []; input := "Calculate 15 * (23 + 7)";
                     isLoading := false; conversationId := Val JNull |}
                  [("And in Rome?", NetworkError)] eq_refl Ht)).
Defined.

End IdFacts.

(* ===================================================================== *)
(* Further properties of the frontend code                                *)
(* ===================================================================== *)

Module ExtraFacts.

Lemma nonblank_truthy (s : string) :
  js_trim s <> "" -> negb (truthy (Val (JStr (js_trim s)))) = false.
Proof.
  intros H. simpl. destruct (String.eqb (js_trim s) "") eqn:E; [|reflexivity].
  apply String.eqb_eq in E. contradiction.
Qed.

Lemma handleSubmit_start_some (st st1 : ChatState) (p : PendingTurn) :
  handleSubmit_start st = (st1, Some p) ->
  st1 = {| messages := app (messages st)
                          [{| role := User; content := Val (JStr (input st));
                              toolCalls := Undefined |}];
           input := ""; isLoading := true; conversationId := conversationId st |} /\
  p = {| pend_query := input st; pend_arg := js_or (conversationId st) Undefined;
         pend_captured := conversationId st |}.
Proof.
  unfold handleSubmit_start.
  destruct (negb (truthy (Val (JStr (js_trim (input st)))))); [discriminate|].
  intros H. inversion H. split; reflexivity.
Qed.

Lemma handleSubmit_start_nonblank (st : ChatState) :
  js_trim (input st) <> "" ->
  handleSubmit_start st =
  ({| messages := app (messages st)
                    [{| role := User; content := Val (JStr (input st));
                        toolCalls := Undefined |}];
      input := ""; isLoading := true; conversationId := conversationId st |},
   Some {| pend_query := input st; pend_arg := js_or (conversationId st) Undefined;
           pend_captured := conversationId st |}).
Proof.
  intros H. unfold handleSubmit_start. rewrite (nonblank_truthy _ H). reflexivity.
Qed.

(** X1: the status the health poll shows is decided by the /health
    response alone: it is one of error, warning, connected (never left
    at connecting); it is 'connected' exactly when the response is ok,
    its body an object and its api_key_configured truthy; and it is
    'error' exactly when the response is not ok with a non-null JSON
    body (network failure, non-ok status, body not JSON, body null). *)
Theorem checkApiHealth_status (o : FetchOutcome) :
  let s := checkApiHealth (checkHealth_result o) in
  (s = (StatusError, Some cannot_connect_text) \/ s = (Warning, Some no_key_text) \/
   s = (Connected, None)) /\
  (fst s = Connected <->
   exists fs, o = HttpResponse true (Some (JObj fs)) /\
              truthy (field_lookup "api_key_configured" fs) = true) /\
  (fst s = StatusError <->
   forall j, o = HttpResponse true (Some j) -> j = JNull).
Proof.
  destruct o as [|ok [j|]];
    [|destruct ok; [destruct j as [| | | | |fs]|]|destruct ok];
    cbn -[field_lookup truthy];
    try (destruct (truthy (field_lookup "api_key_configured" fs)) eqn:E;
         cbn -[field_lookup truthy]);
    (split; [ (left; reflexivity) || (right; left; reflexivity)
              || (right; right; reflexivity) |]);
    (split; split);
    try discriminate;
    try (intros (fs' & H & Hk); inversion H; subst; congruence);
    try (intros (fs' & H & Hk); discriminate H);
    try (intros H; discriminate (H _ eq_refl));
    try (intros _; exists fs; split; [reflexivity|exact E]);
    try (intros _ j' H; inversion H; reflexivity);
    try (intros _ j' H; discriminate H);
    reflexivity.
Qed.

(** X2: a non-blank submission sets isLoading before the request goes
    out, which disables the input and the Send button whatever the API
    status and enables the New Conversation button; however the request
    settles and whatever happened to the state meanwhile, the handler
    ends with isLoading false, so the form is disabled afterwards only
    when the API status is 'error'. *)
Theorem submit_disables_form_until_settled (st st1 : ChatState) (p : PendingTurn)
  (Hs : handleSubmit_start st = (st1, Some p)) :
  isLoading st1 = true /\
  (forall status, form_disabled (isLoading st1) status = true) /\
  newConversation_disabled st1 = false /\
  (forall r st' status,
     isLoading (handleSubmit_finish p r st') = false /\
     form_disabled (isLoading (handleSubmit_finish p r st')) status
       = is_error_status status).
Proof.
  destruct (handleSubmit_start_some st st1 p Hs) as [-> ->].
  split; [reflexivity|]. split; [intros; reflexivity|]. split.
  - unfold newConversation_disabled. simpl. rewrite length_app. simpl.
    destruct (List.length (messages st)); reflexivity.
  - intros r st' status. unfold handleSubmit_finish.
    destruct r as [resp|]; [|split; reflexivity].
    destruct (get_prop (Val resp) "conversation_id"); [|split; reflexivity].
    destruct (get_prop (Val resp) "response"), (get_prop (Val resp) "tool_calls");
      split; reflexivity.
Qed.

Lemma submit_disables_form_until_settled_witness :
  handleSubmit_start initial_state_hi =
    (fst (handleSubmit_start initial_state_hi),
     Some {| pend_query := "hi"; pend_arg := Undefined; pend_captured := Val JNull |}) /\
  newConversation_disabled (fst (handleSubmit_start initial_state_hi)) = false.
Proof.
  assert (Hs : handleSubmit_start initial_state_hi =
    (fst (handleSubmit_start initial_state_hi),
     Some {| pend_query := "hi"; pend_arg := Undefined; pend_captured := Val JNull |}))
    by (vm_compute; reflexivity).
  split; [exact Hs|].
  exact (proj1 (proj2 (proj2 (submit_disables_form_until_settled _ _ _ Hs)))).
Defined.

(** X3: a submission whose trimmed input is non-empty sends the input
    untrimmed as the query, together with `conversationId || undefined`;
    it clears the input, ends with isLoading false, and appends exactly
    two messages: the user message carrying the untrimmed input, then
    one assistant message. *)
Theorem handleSubmit_appends_two (base : string) (st : ChatState) (o : FetchOutcome)
  (Htext : js_trim (input st) <> "") :
  (handleSubmit base st o).1
    = Some (queryAgent_request base (input st) (js_or (conversationId st) Undefined)) /\
  input (handleSubmit base st o).2 = "" /\
  isLoading (handleSubmit base st o).2 = false /\
  exists am,
    messages (handleSubmit base st o).2
      = app (messages st) [{| role := User; content := Val (JStr (input st));
                              toolCalls := Undefined |}; am] /\
    role am = Assistant.
Proof.
  unfold handleSubmit. rewrite (handleSubmit_start_nonblank st Htext).
  cbv beta iota zeta delta [fst snd pend_query pend_arg].
  split; [reflexivity|].
  unfold handleSubmit_finish.
  destruct (queryAgent_result o) as [resp|];
    [|split; [reflexivity|split; [reflexivity|]];
      eexists; split; [simpl; rewrite <- app_assoc; reflexivity|reflexivity]].
  destruct (get_prop (Val resp) "conversation_id") as [cid|];
    [|split; [reflexivity|split; [reflexivity|]];
      eexists; split; [simpl; rewrite <- app_assoc; reflexivity|reflexivity]].
  destruct (truthy cid && negb (truthy (pend_captured _)));
  destruct (get_prop (Val resp) "response"), (get_prop (Val resp) "tool_calls");
    (split; [reflexivity|split; [reflexivity|]]);
    eexists; (split; [simpl; rewrite <- app_assoc; reflexivity|reflexivity]).
Qed.

Lemma handleSubmit_appends_two_witness :
  js_trim "  What is 2 + 2?  " <> "" /\
  (handleSubmit "http://localhost:8000"
     {| messages := []; input := "  What is 2 + 2?  "; isLoading := false;
        conversationId := Val JNull |} NetworkError).1
  = Some (queryAgent_request "http://localhost:8000" "  What is 2 + 2?  " Undefined).
Proof.
  assert (H : js_trim "  What is 2 + 2?  " <> "") by (vm_compute; discriminate).
  split; [exact H|].
  exact (proj1 (handleSubmit_appends_two "http://localhost:8000"
                  {| messages := []; input := "  What is 2 + 2?  "; isLoading := false;
                     conversationId := Val JNull |} NetworkError H)).
Defined.

(** X4: queryAgent resolves exactly when the response is ok and its body
    is JSON, to that parsed body unchecked.  An ok response whose body is
    not JSON rejects with the parse error.  A non-ok response rejects with
    `new Error(detail)` when its JSON object body has a truthy detail,
    otherwise with the default message; a non-ok response with a null
    body rejects with a TypeError, and one whose body is not JSON with
    the parse error instead of an Error carrying a message. *)
Theorem queryAgent_result_cases (o : FetchOutcome) :
  (forall j, queryAgent_result o = Resolved j <-> o = HttpResponse true (Some j)) /\
  (forall ok, o = HttpResponse ok None -> queryAgent_result o = Rejected ESyntax) /\
  (o = HttpResponse false (Some JNull) -> queryAgent_result o = Rejected ETypeError) /\
  (forall fs, o = HttpResponse false (Some (JObj fs)) ->
     queryAgent_result o
       = Rejected (EMessage (if truthy (field_lookup "detail" fs)
                             then field_lookup "detail" fs
                             else Val (JStr "An error occurred while querying the agent.")))) /\
  (o = NetworkError -> queryAgent_result o = Rejected ENetwork).
Proof.
  split; [|split; [|split; [|split]]].
  - intros j. destruct o as [|[] [b|]]; simpl;
      split; intros H; try discriminate; try (inversion H; reflexivity).
    unfold throw_error_detail in H. destruct b; discriminate H.
  - intros ok ->. destruct ok; reflexivity.
  - intros ->. reflexivity.
  - intros fs ->. reflexivity.
  - intros ->. reflexivity.
Qed.

(** X5: deleteConversation resolves on every ok response without reading
    its body, so also when the body is not JSON; it rejects on a network
    failure and on every non-ok response, with the body's truthy detail
    or the default deletion message when the body is a JSON object. *)
Theorem deleteConversation_result_cases (o : FetchOutcome) :
  (deleteConversation_result o = Resolved tt <-> exists body, o = HttpResponse true body) /\
  (forall fs, o = HttpResponse false (Some (JObj fs)) ->
     deleteConversation_result o
       = Rejected (EMessage (if truthy (field_lookup "detail" fs)
                             then field_lookup "detail" fs
                             else Val (JStr "An error occurred while deleting the conversation.")))).
Proof.
  split.
  - destruct o as [|ok body]; [split; [discriminate|intros [? H]; discriminate H]|].
    destruct ok; [split; [intros _; eexists; reflexivity|reflexivity]|].
    split; [|intros [? H]; discriminate H].
    intros H. destruct body as [b|]; [|discriminate H].
    unfold deleteConversation_result, throw_error_detail in H. simpl in H.
    destruct b; discriminate H.
  - intros fs ->. reflexivity.
Qed.

(** X6: when queryAgent resolves, the continuation of handleSubmit
    appends exactly one assistant message.  For an object body it takes
    `response` and `tool_calls` as they are (undefined when absent, never
    the error text) and stores `conversation_id` only when it is truthy
    and no id was held when the turn was submitted; for any other
    non-null body (array, string, number, boolean) the message has
    undefined content and tool calls and the id is untouched; only a
    null body gives the error message. *)
Theorem finish_on_resolved (p : PendingTurn) (st : ChatState) :
  (forall fs,
     handleSubmit_finish p (Resolved (JObj fs)) st =
     {| messages := app (messages st)
                      [{| role := Assistant; content := field_lookup "response" fs;
                          toolCalls := field_lookup "tool_calls" fs |}];
        input := input st; isLoading := false;
        conversationId :=
          if truthy (field_lookup "conversation_id" fs) && negb (truthy (pend_captured p))
          then field_lookup "conversation_id" fs else conversationId st |}) /\
  (forall j, j <> JNull -> (forall fs, j <> JObj fs) ->
     handleSubmit_finish p (Resolved j) st =
     {| messages := app (messages st)
                      [{| role := Assistant; content := Undefined; toolCalls := Undefined |}];
        input := input st; isLoading := false; conversationId := conversationId st |}) /\
  handleSubmit_finish p (Resolved JNull) st =
  {| messages := app (messages st) [error_message];
     input := input st; isLoading := false; conversationId := conversationId st |}.
Proof.
  split; [|split].
  - intros fs. unfold handleSubmit_finish. cbn [get_prop].
    destruct (truthy (field_lookup "conversation_id" fs) && negb (truthy (pend_captured p)));
      reflexivity.
  - intros j Hn Ho. unfold handleSubmit_finish.
    destruct j as [| | | | |fs]; [contradiction|..|destruct (Ho fs eq_refl)];
      reflexivity.
  - reflexivity.
Qed.

(** X7: while an id is held, a non-blank submission whose request fails
    (for instance a 404 for a conversation the backend no longer knows)
    sends the held id, appends the user message and the error message,
    and keeps the id, so the next submission sends the same id again:
    only New Conversation drops it. *)
Theorem held_id_kept_on_failure (base : string) (st : ChatState) (o : FetchOutcome)
  (e : throwable)
  (Hheld : truthy (conversationId st) = true) (Htext : js_trim (input st) <> "")
  (Hfail : queryAgent_result o = Rejected e) :
  handleSubmit base st o =
  (Some (queryAgent_request base (input st) (conversationId st)),
   {| messages := app (messages st)
                    [{| role := User; content := Val (JStr (input st));
                        toolCalls := Undefined |}; error_message];
      input := ""; isLoading := false; conversationId := conversationId st |}).
Proof.
  unfold handleSubmit. rewrite (handleSubmit_start_nonblank st Htext).
  cbv beta iota zeta delta [pend_query pend_arg].
  unfold js_or. rewrite Hheld, Hfail. unfold handleSubmit_finish. simpl.
  unfold set_isLoading, set_messages. cbn [messages input isLoading conversationId].
  rewrite <- app_assoc. reflexivity.
Qed.

Lemma held_id_kept_on_failure_witness :
  queryAgent_result (HttpResponse false (Some stale_detail))
    = Rejected (EMessage (Val (JStr "Conversation not found"))) /\
  handleSubmit "http://localhost:8000" stale_state (HttpResponse false (Some stale_detail))
  = (Some (queryAgent_request "http://localhost:8000" "And tomorrow?"
                              (Val (JStr "conv-7"))),
     {| messages := [{| role := User; content := Val (JStr "And tomorrow?");
                        toolCalls := Undefined |}; error_message];
        input := ""; isLoading := false; conversationId := Val (JStr "conv-7") |}).
Proof.
  assert (Hf : queryAgent_result (HttpResponse false (Some stale_detail))
               = Rejected (EMessage (Val (JStr "Conversation not found"))))
    by reflexivity.
  assert (Ht : js_trim (input stale_state) <> "") by (vm_compute; discriminate).
  split; [exact Hf|].
  exact (held_id_kept_on_failure "http://localhost:8000" stale_state _ _
           eq_refl Ht Hf).
Defined.



End ExtraFacts.
